(** * Page-table index extraction ([pthelp.py])

    A shallow embedding of [get_addr_index], the helper that splits a
    virtual address into the four 9-bit page-table indices of a four-level
    paging scheme, together with the properties stated for it.

    Python's [int] is unbounded, so addresses are modelled as [Z].  On [Z]
    the Standard Library's [Z.shiftr] is the arithmetic (flooring) right
    shift and [Z.land] works on the infinite two's-complement bit pattern,
    which is exactly what Python's [>>] and [&] do on [int]. *)

From Stdlib Require Import ZArith Lia Bool List String.
Import ListNotations.
Local Open Scope Z_scope.

(** ** Python integer operators, with the exceptions they can raise *)

Module PyInt.

(** The only exception an [int >> int] can raise: a negative count. *)
Inductive exn : Type :=
| ValueError.

Inductive result (A : Type) : Type :=
| Ok (a : A)
| Raise (e : exn).

Arguments Ok {A} a.
Arguments Raise {A} e.

Definition bind {A B : Type} (m : result A) (k : A -> result B) : result B :=
  match m with
  | Ok a => k a
  | Raise e => Raise e
  end.

(** [a >> n]: raises [ValueError] when the count is negative. *)
Definition rshift (a n : Z) : result Z :=
  if n <? 0 then Raise ValueError else Ok (Z.shiftr a n).

(** [a & b]: defined on every pair of integers. *)
Definition and_ (a b : Z) : result Z :=
  Ok (Z.land a b).

End PyInt.

Import PyInt.

Declare Scope py_scope.
Delimit Scope py_scope with py.
Notation "x <- m ;; k" := (bind m (fun x => k))
  (at level 61, m at next level, right associativity) : py_scope.
Notation "a >> n" := (rshift a n) (at level 35, no associativity) : py_scope.
Local Open Scope py_scope.

(** ** The source function *)

Definition indices : Type := (Z * Z * Z * Z)%type.

(** [[
def get_addr_index(addr):
    p1 = (addr >> 12) & 0x1ff
    p2 = (addr >> 21) & 0x1ff
    p3 = (addr >> 30) & 0x1ff
    p4 = (addr >> 39) & 0x1ff
    return (p4, p3, p2, p1)
]] *)
Definition get_addr_index (addr : Z) : result indices :=
  p1 <- (s <- addr >> 12 ;; and_ s 0x1ff) ;;
  p2 <- (s <- addr >> 21 ;; and_ s 0x1ff) ;;
  p3 <- (s <- addr >> 30 ;; and_ s 0x1ff) ;;
  p4 <- (s <- addr >> 39 ;; and_ s 0x1ff) ;;
  Ok (p4, p3, p2, p1).

(** ** The function as the interpreter runs it

    A call executes the body in a fresh frame on top of the module's
    global namespace.  Python decides per name where it lives: the
    parameter and every name the body assigns are locals of the frame
    unless the body declares them [global]; every other name is looked up
    in the global namespace.  The combinators below follow that rule, and
    [get_addr_index_body] is the body written statement by statement with
    them, so that what the function reads and writes is computed from its
    text rather than assumed. *)

Module Frame.

(** A Python object: an integer, or anything else. *)
Inductive value : Type :=
| VInt (z : Z)
| VOther (repr : string).

(** A namespace ([dict] from names to objects), in insertion order. *)
Definition namespace : Type := list (string * value).

Fixpoint lookup (n : string) (ns : namespace) : option value :=
  match ns with
  | [] => None
  | (m, v) :: rest => if String.eqb n m then Some v else lookup n rest
  end.

Fixpoint update (n : string) (v : value) (ns : namespace) : namespace :=
  match ns with
  | [] => [(n, v)]
  | (m, x) :: rest =>
      if String.eqb n m then (m, v) :: rest else (m, x) :: update n v rest
  end.

Fixpoint mem (n : string) (names : list string) : bool :=
  match names with
  | [] => false
  | m :: rest => String.eqb n m || mem n rest
  end.

Inductive error : Type :=
| Arith (e : exn)
| TypeError
| NameError (n : string)
| UnboundLocalError (n : string).

Inductive outcome (A : Type) : Type :=
| Done (a : A)
| Fail (e : error).

Arguments Done {A} a.
Arguments Fail {A} e.

Record state : Type := mkState {
  globals : namespace;
  locals : namespace
}.

(** A piece of code running in a frame: it may read and write both
    namespaces, and what it wrote stays written when it raises. *)
Definition frame (A : Type) : Type := state -> outcome A * state.

Definition ret {A : Type} (a : A) : frame A :=
  fun st => (Done a, st).

Definition raise {A : Type} (e : error) : frame A :=
  fun st => (Fail e, st).

Definition fbind {A B : Type} (m : frame A) (k : A -> frame B) : frame B :=
  fun st =>
    match m st with
    | (Done a, st1) => k a st1
    | (Fail e, st1) => (Fail e, st1)
    end.

(** The static scope of a function: its local names and the names it
    declares [global]. *)
Record scope : Type := mkScope {
  co_varnames : list string;
  co_globals : list string
}.

(** Reading a name. *)
Definition load (sc : scope) (n : string) : frame value :=
  fun st =>
    if mem n (co_varnames sc) && negb (mem n (co_globals sc)) then
      match lookup n (locals st) with
      | Some v => (Done v, st)
      | None => (Fail (UnboundLocalError n), st)
      end
    else
      match lookup n (globals st) with
      | Some v => (Done v, st)
      | None => (Fail (NameError n), st)
      end.

(** [n = v]. *)
Definition store (sc : scope) (n : string) (v : value) : frame unit :=
  fun st =>
    if mem n (co_globals sc) then
      (Done tt, mkState (update n v (globals st)) (locals st))
    else
      (Done tt, mkState (globals st) (update n v (locals st))).

(** [x >> n] and [x & m] with an integer literal on the right: a
    [TypeError] when [x] is not an integer. *)
Definition v_rshift (x : value) (n : Z) : frame value :=
  match x with
  | VInt a =>
      match rshift a n with
      | Ok r => ret (VInt r)
      | Raise e => raise (Arith e)
      end
  | VOther _ => raise TypeError
  end.

Definition v_and (x : value) (m : Z) : frame value :=
  match x with
  | VInt a =>
      match and_ a m with
      | Ok r => ret (VInt r)
      | Raise e => raise (Arith e)
      end
  | VOther _ => raise TypeError
  end.

End Frame.

Import Frame.

Declare Scope frame_scope.
Delimit Scope frame_scope with frame.
Notation "x <- m ;; k" := (fbind m (fun x => k))
  (at level 61, m at next level, right associativity) : frame_scope.
Notation "m ;;; k" := (fbind m (fun _ => k))
  (at level 61, right associativity) : frame_scope.

(** The parameter and the four assigned names are locals; the body has no
    [global] statement. *)
Definition get_addr_index_scope : scope :=
  mkScope ["addr"; "p1"; "p2"; "p3"; "p4"]%string [].

Definition index_tuple : Type := (value * value * value * value)%type.

Definition get_addr_index_body : frame index_tuple :=
  let sc := get_addr_index_scope in
  ((a <- load sc "addr" ;; s <- v_rshift a 12 ;; v <- v_and s 0x1ff ;;
    store sc "p1" v) ;;;
   (a <- load sc "addr" ;; s <- v_rshift a 21 ;; v <- v_and s 0x1ff ;;
    store sc "p2" v) ;;;
   (a <- load sc "addr" ;; s <- v_rshift a 30 ;; v <- v_and s 0x1ff ;;
    store sc "p3" v) ;;;
   (a <- load sc "addr" ;; s <- v_rshift a 39 ;; v <- v_and s 0x1ff ;;
    store sc "p4" v) ;;;
   (p4 <- load sc "p4" ;; p3 <- load sc "p3" ;;
    p2 <- load sc "p2" ;; p1 <- load sc "p1" ;;
    ret (p4, p3, p2, p1)))%frame.

(** [get_addr_index(addr)] called from module code whose namespace is
    [g]: the argument is bound in a fresh frame, the body runs, the frame
    is dropped and the namespace is as the body left it. *)
Definition call_get_addr_index (g : namespace) (addr : value)
  : outcome index_tuple * namespace :=
  let '(r, st) := get_addr_index_body (mkState g [("addr"%string, addr)]) in
  (r, globals st).

(** Module code that calls the function on each argument in turn and
    keeps the outcomes in call order. *)
Fixpoint run_calls (g : namespace) (addrs : list value)
  : list (outcome index_tuple) * namespace :=
  match addrs with
  | [] => ([], g)
  | a :: rest =>
      let '(r, g1) := call_get_addr_index g a in
      let '(rs, g2) := run_calls g1 rest in
      (r :: rs, g2)
  end.

(** What the caller sees of a result of the plain function. *)
Definition returned (r : result indices) : outcome index_tuple :=
  match r with
  | Ok (p4, p3, p2, p1) => Done (VInt p4, VInt p3, VInt p2, VInt p1)
  | Raise e => Fail (Arith e)
  end.

(** ** Vocabulary of the properties *)

(** The [width]-bit field of [a] that starts at bit [off]. *)
Definition bitfield (a off width : Z) : Z :=
  (a / 2 ^ off) mod 2 ^ width.

(** [a] with its low 12 bits replaced by [k]: [(a & ~0xfff) | k]. *)
Definition replace_low12 (a k : Z) : Z :=
  Z.lor (Z.land a (Z.lnot 0xfff)) k.

(** [a] with bit [i] flipped: [a ^ (1 << i)]. *)
Definition flip_bit (a i : Z) : Z :=
  Z.lxor a (Z.shiftl 1 i).

(** Bits 12..47, the part of an address that the four indices cover. *)
Definition index_mask : Z := 0xfffffffff000.

(** The low [w] bits of [a], i.e. its [w]-bit two's-complement encoding. *)
Definition twos_complement (w a : Z) : Z :=
  a mod 2 ^ w.

Inductive level : Type :=
| L4 | L3 | L2 | L1.

(** The level whose bit range contains bit [i], if any. *)
Definition level_of_bit (i : Z) : option level :=
  if (12 <=? i) && (i <=? 20) then Some L1
  else if (21 <=? i) && (i <=? 29) then Some L2
  else if (30 <=? i) && (i <=? 38) then Some L3
  else if (39 <=? i) && (i <=? 47) then Some L4
  else None.

(** The levels at which two index tuples differ, outermost first. *)
Definition changed_levels (t u : indices) : list level :=
  let '(p4, p3, p2, p1) := t in
  let '(q4, q3, q2, q1) := u in
  (if p4 =? q4 then [] else [L4]) ++
  (if p3 =? q3 then [] else [L3]) ++
  (if p2 =? q2 then [] else [L2]) ++
  (if p1 =? q1 then [] else [L1]).

(** Every index of the tuple is a 9-bit value. *)
Definition in_range (t : indices) : Prop :=
  let '(p4, p3, p2, p1) := t in
  0 <= p4 <= 511 /\ 0 <= p3 <= 511 /\ 0 <= p2 <= 511 /\ 0 <= p1 <= 511.

(** Putting the indices back at their bit offsets:
    [(p4 << 39) + (p3 << 30) + (p2 << 21) + (p1 << 12)]. *)
Definition reassemble (t : indices) : Z :=
  let '(p4, p3, p2, p1) := t in
  Z.shiftl p4 39 + Z.shiftl p3 30 + Z.shiftl p2 21 + Z.shiftl p1 12.

(** The tuple that follows [t] when the four indices are read as the
    digits of a base-512 counter, outermost digit first; the last tuple
    wraps around to the first. *)
Definition next_indices (t : indices) : indices :=
  let '(p4, p3, p2, p1) := t in
  if p1 <? 511 then (p4, p3, p2, p1 + 1)
  else if p2 <? 511 then (p4, p3, p2 + 1, 0)
  else if p3 <? 511 then (p4, p3 + 1, 0, 0)
  else if p4 <? 511 then (p4 + 1, 0, 0, 0)
  else (0, 0, 0, 0).

(** Lexicographic order on index tuples, outermost level first: the order
    in which a top-down walk meets the entries. *)
Definition indices_leb (t u : indices) : bool :=
  let '(p4, p3, p2, p1) := t in
  let '(q4, q3, q2, q1) := u in
  (p4 <? q4) || ((p4 =? q4) &&
  ((p3 <? q3) || ((p3 =? q3) &&
  ((p2 <? q2) || ((p2 =? q2) && (p1 <=? q1)))))).

(** The 36-bit virtual page number of an address: [(a // 4096) % 2**36]. *)
Definition page_number (a : Z) : Z :=
  (a / 4096) mod 2 ^ 36.

(** * Properties *)

Example get_addr_index_sample :
  get_addr_index 0x123456789abc = Ok (36, 209, 179, 393).
Proof. reflexivity. Qed.

Lemma Ok_inj (A : Type) (x y : A) : Ok x = Ok y -> x = y.
Proof.
  intros H.
  exact (f_equal (fun r => match r with Ok v => v | Raise _ => x end) H).
Qed.

(** ** Bit-level facts about one index *)

(** The function never takes the error branch of [>>]: its four shift
    counts are non-negative constants. *)
Lemma get_addr_index_unfold (a : Z) :
  get_addr_index a =
  Ok (Z.land (Z.shiftr a 39) 0x1ff, Z.land (Z.shiftr a 30) 0x1ff,
      Z.land (Z.shiftr a 21) 0x1ff, Z.land (Z.shiftr a 12) 0x1ff).
Proof. reflexivity. Qed.

Lemma field_testbit (a off n : Z) :
  0 <= off -> 0 <= n ->
  Z.testbit (Z.land (Z.shiftr a off) 0x1ff) n = Z.testbit a (n + off) && (n <? 9).
Proof.
  intros Hoff Hn.
  change 0x1ff with (Z.ones 9).
  rewrite Z.land_spec, Z.shiftr_spec by assumption.
  rewrite Z.testbit_ones_nonneg by lia.
  reflexivity.
Qed.

Lemma field_bitfield (a off : Z) :
  0 <= off -> Z.land (Z.shiftr a off) 0x1ff = bitfield a off 9.
Proof.
  intros Hoff. unfold bitfield.
  change 0x1ff with (Z.ones 9).
  rewrite Z.land_ones by lia.
  rewrite Z.shiftr_div_pow2 by assumption.
  reflexivity.
Qed.

Lemma field_range (a off : Z) :
  0 <= Z.land (Z.shiftr a off) 0x1ff <= 511.
Proof.
  change (Z.land (Z.shiftr a off) 0x1ff)
    with (Z.land (Z.shiftr a off) (Z.ones 9)).
  rewrite Z.land_ones by lia.
  change (2 ^ 9) with 512.
  pose proof (Z.mod_pos_bound (Z.shiftr a off) 512 eq_refl) as H.
  lia.
Qed.

(** Two addresses that agree on the nine bits from [off] on have the same
    index there. *)
Lemma field_ext (a b off : Z) :
  0 <= off ->
  (forall n, off <= n < off + 9 -> Z.testbit a n = Z.testbit b n) ->
  Z.land (Z.shiftr a off) 0x1ff = Z.land (Z.shiftr b off) 0x1ff.
Proof.
  intros Hoff Hbits.
  apply Z.bits_inj'. intros n Hn.
  rewrite !field_testbit by assumption.
  destruct (Z.ltb_spec n 9) as [Hlt | Hge].
  - rewrite Hbits by lia. reflexivity.
  - rewrite !andb_false_r. reflexivity.
Qed.

Lemma get_addr_index_ext (a b : Z) :
  (forall n, 12 <= n <= 47 -> Z.testbit a n = Z.testbit b n) ->
  get_addr_index a = get_addr_index b.
Proof.
  intros Hbits. rewrite !get_addr_index_unfold.
  rewrite (field_ext a b 39), (field_ext a b 30),
          (field_ext a b 21), (field_ext a b 12);
    try reflexivity; try lia; intros n Hn; apply Hbits; lia.
Qed.

Lemma index_mask_testbit (n : Z) :
  Z.testbit index_mask n = (12 <=? n) && (n <? 48).
Proof.
  change index_mask with (Z.shiftl (Z.ones 36) 12).
  destruct (Z.neg_nonneg_cases n) as [Hneg | Hnn].
  - rewrite Z.testbit_neg_r by assumption.
    destruct (Z.leb_spec 12 n); [lia | reflexivity].
  - rewrite Z.shiftl_spec by assumption.
    destruct (Z.leb_spec 12 n) as [Hge | Hlt].
    + rewrite Z.testbit_ones_nonneg by lia.
      destruct (Z.ltb_spec (n - 12) 36), (Z.ltb_spec n 48); lia || reflexivity.
    + rewrite Z.testbit_neg_r by lia. reflexivity.
Qed.

Lemma index_mask_agree (a b : Z) :
  Z.land a index_mask = Z.land b index_mask ->
  forall n, 12 <= n <= 47 -> Z.testbit a n = Z.testbit b n.
Proof.
  intros Hmask n Hn.
  apply (f_equal (fun z => Z.testbit z n)) in Hmask.
  rewrite !Z.land_spec, index_mask_testbit in Hmask.
  destruct (Z.leb_spec 12 n), (Z.ltb_spec n 48); try lia.
  simpl in Hmask. rewrite !andb_true_r in Hmask. exact Hmask.
Qed.

Lemma replace_low12_testbit (a k n : Z) :
  0 <= k <= 4095 -> 12 <= n ->
  Z.testbit (replace_low12 a k) n = Z.testbit a n.
Proof.
  intros Hk Hn. unfold replace_low12.
  rewrite Z.lor_spec, Z.land_spec, Z.lnot_spec by lia.
  change 0xfff with (Z.ones 12).
  rewrite Z.testbit_ones_nonneg by lia.
  rewrite <- (Z.mod_small k (2 ^ 12)) by (change (2 ^ 12) with 4096; lia).
  rewrite Z.mod_pow2_bits_high by lia.
  destruct (Z.ltb_spec n 12); try lia.
  simpl. rewrite andb_true_r, orb_false_r. reflexivity.
Qed.

Lemma flip_bit_testbit (a i n : Z) :
  0 <= n ->
  Z.testbit (flip_bit a i) n = xorb (Z.testbit a n) (i =? n).
Proof.
  intros Hn. unfold flip_bit.
  rewrite Z.lxor_spec, Z.shiftl_1_l. f_equal.
  destruct (Z.neg_nonneg_cases i) as [Hneg | Hnn].
  - rewrite Z.pow_neg_r, Z.bits_0 by assumption.
    symmetry. apply Z.eqb_neq. lia.
  - apply Z.pow2_bits_eqb. assumption.
Qed.

(** Flipping bit [i] changes the index at offset [off] exactly when [i]
    is one of its nine bits. *)
Lemma field_eqb_flip (a i off hi : Z) :
  0 <= off -> hi = off + 8 ->
  (Z.land (Z.shiftr a off) 0x1ff =? Z.land (Z.shiftr (flip_bit a i) off) 0x1ff)
  = negb ((off <=? i) && (i <=? hi)).
Proof.
  intros Hoff ->.
  destruct (Z.leb_spec off i) as [Hlo | Hlo];
    [destruct (Z.leb_spec i (off + 8)) as [Hhi | Hhi] |]; simpl.
  - apply Z.eqb_neq. intros Heq.
    apply (f_equal (fun z => Z.testbit z (i - off))) in Heq.
    rewrite !field_testbit, flip_bit_testbit in Heq by lia.
    replace (i - off + off) with i in Heq by lia.
    rewrite Z.eqb_refl in Heq.
    destruct (Z.ltb_spec (i - off) 9); try lia.
    destruct (Z.testbit a i); discriminate.
  - apply Z.eqb_eq, field_ext; try assumption.
    intros n Hn. rewrite flip_bit_testbit by lia.
    destruct (Z.eqb_spec i n); try lia. symmetry. apply xorb_false_r.
  - apply Z.eqb_eq, field_ext; try assumption.
    intros n Hn. rewrite flip_bit_testbit by lia.
    destruct (Z.eqb_spec i n); try lia. symmetry. apply xorb_false_r.
Qed.

Lemma changed_levels_flip (a i : Z) :
  changed_levels
    (Z.land (Z.shiftr a 39) 0x1ff, Z.land (Z.shiftr a 30) 0x1ff,
     Z.land (Z.shiftr a 21) 0x1ff, Z.land (Z.shiftr a 12) 0x1ff)
    (Z.land (Z.shiftr (flip_bit a i) 39) 0x1ff,
     Z.land (Z.shiftr (flip_bit a i) 30) 0x1ff,
     Z.land (Z.shiftr (flip_bit a i) 21) 0x1ff,
     Z.land (Z.shiftr (flip_bit a i) 12) 0x1ff)
  = match level_of_bit i with
    | Some l => [l]
    | None => []
    end.
Proof.
  unfold changed_levels, level_of_bit.
  rewrite (field_eqb_flip a i 39 47), (field_eqb_flip a i 30 38),
          (field_eqb_flip a i 21 29), (field_eqb_flip a i 12 20) by lia.
  destruct (Z.leb_spec 12 i), (Z.leb_spec i 20), (Z.leb_spec 21 i),
    (Z.leb_spec i 29), (Z.leb_spec 30 i), (Z.leb_spec i 38),
    (Z.leb_spec 39 i), (Z.leb_spec i 47); simpl; reflexivity || lia.
Qed.

(** The masked address, written with division and remainder. *)
Lemma index_mask_div_mod (a : Z) :
  Z.land a index_mask = ((a / 2 ^ 12) mod 2 ^ 36) * 2 ^ 12.
Proof.
  apply Z.bits_inj'. intros n Hn.
  rewrite Z.land_spec, index_mask_testbit.
  destruct (Z.leb_spec 12 n) as [Hge | Hlt].
  - rewrite Z.mul_pow2_bits by lia.
    destruct (Z.ltb_spec n 48) as [Hin | Hout].
    + rewrite Z.mod_pow2_bits_low, Z.div_pow2_bits by lia.
      replace (n - 12 + 12) with n by lia. apply andb_true_r.
    + rewrite Z.mod_pow2_bits_high by lia. apply andb_false_r.
  - rewrite Z.mul_pow2_bits by lia.
    rewrite (Z.testbit_neg_r _ (n - 12)) by lia. apply andb_false_r.
Qed.

Lemma reassemble_mask (a : Z) :
  reassemble
    (Z.land (Z.shiftr a 39) 0x1ff, Z.land (Z.shiftr a 30) 0x1ff,
     Z.land (Z.shiftr a 21) 0x1ff, Z.land (Z.shiftr a 12) 0x1ff)
  = Z.land a index_mask.
Proof.
  unfold reassemble.
  rewrite index_mask_div_mod, !field_bitfield by lia.
  unfold bitfield. rewrite !Z.shiftl_mul_pow2 by lia.
  change (2 ^ 39) with (2 ^ 12 * 512 * 512 * 512).
  change (2 ^ 30) with (2 ^ 12 * 512 * 512).
  change (2 ^ 21) with (2 ^ 12 * 512).
  rewrite <- !Z.div_div by lia.
  change (2 ^ 36) with 68719476736.
  change (2 ^ 12) with 4096.
  change (2 ^ 9) with 512.
  generalize (a / 4096). intros x.
  Z.div_mod_to_equations. lia.
Qed.

(** Reducing an address to [w >= 48] bits keeps bits 12..47. *)
Lemma twos_complement_testbit (w a n : Z) :
  0 <= n < w -> Z.testbit (twos_complement w a) n = Z.testbit a n.
Proof.
  intros Hn. unfold twos_complement.
  apply Z.mod_pow2_bits_low. lia.
Qed.

(** ** The stated properties *)

(** C1. For every address [a], [get_addr_index a] returns the tuple
    [((a >> 39) & 0x1ff, (a >> 30) & 0x1ff, (a >> 21) & 0x1ff,
    (a >> 12) & 0x1ff)]: the four 9-bit fields of [a] at bit offsets 39,
    30, 21 and 12, in the order (L4, L3, L2, L1), most significant first. *)
Theorem get_addr_index_fields (a : Z) :
  get_addr_index a =
    Ok (Z.land (Z.shiftr a 39) 0x1ff, Z.land (Z.shiftr a 30) 0x1ff,
        Z.land (Z.shiftr a 21) 0x1ff, Z.land (Z.shiftr a 12) 0x1ff)
  /\ get_addr_index a =
    Ok (bitfield a 39 9, bitfield a 30 9, bitfield a 21 9, bitfield a 12 9).
Proof.
  split.
  - apply get_addr_index_unfold.
  - rewrite get_addr_index_unfold, !field_bitfield by lia. reflexivity.
Qed.

(** C2. For every address [a], each of the four fields of the tuple
    returned by [get_addr_index a] lies in the range [0, 511]. *)
Theorem get_addr_index_in_range (a : Z) :
  exists t, get_addr_index a = Ok t /\ in_range t.
Proof.
  eexists. split.
  - apply get_addr_index_unfold.
  - unfold in_range. repeat split; apply field_range.
Qed.

(** C3. The six concrete addresses map to the stated tuples: [0x0],
    [0x1000], [0x200000], [0x40000000], [0x8000000000] and
    [0xFFFFFFFFFFFF]. *)
Theorem get_addr_index_examples :
  get_addr_index 0x0 = Ok (0, 0, 0, 0)
  /\ get_addr_index 0x1000 = Ok (0, 0, 0, 1)
  /\ get_addr_index 0x200000 = Ok (0, 0, 1, 0)
  /\ get_addr_index 0x40000000 = Ok (0, 1, 0, 0)
  /\ get_addr_index 0x8000000000 = Ok (1, 0, 0, 0)
  /\ get_addr_index 0xFFFFFFFFFFFF = Ok (511, 511, 511, 511).
Proof. repeat split; reflexivity. Qed.

(** C4. Bits 0..11 and all bits above bit 47 never influence the output:
    replacing the low 12 bits of [a] by any [k] in [0, 4095] leaves
    [get_addr_index] unchanged, and two addresses that agree on bits
    12..47 (whatever their bits 48 and above) have equal results. *)
Theorem get_addr_index_ignores_offset_and_high_bits (a b k : Z) :
  0 <= k <= 4095 ->
  Z.land a index_mask = Z.land b index_mask ->
  get_addr_index (replace_low12 a k) = get_addr_index a
  /\ get_addr_index b = get_addr_index a.
Proof.
  intros Hk Hmask. split.
  - apply get_addr_index_ext. intros n Hn.
    apply replace_low12_testbit; lia.
  - apply get_addr_index_ext. intros n Hn.
    symmetry. apply index_mask_agree; assumption.
Qed.

Lemma get_addr_index_ignores_offset_and_high_bits_witness :
  (0 <= 0xabc <= 4095)
  /\ Z.land 0x123456789fff index_mask
     = Z.land (0x123456789000 + 5 * 2 ^ 48 + 0x7) index_mask
  /\ get_addr_index (replace_low12 0x123456789fff 0xabc)
     = get_addr_index 0x123456789fff
  /\ get_addr_index (0x123456789000 + 5 * 2 ^ 48 + 0x7)
     = get_addr_index 0x123456789fff.
Proof.
  split; [lia |]. split; [reflexivity |].
  apply (get_addr_index_ignores_offset_and_high_bits
           0x123456789fff (0x123456789000 + 5 * 2 ^ 48 + 0x7) 0xabc);
    [lia | reflexivity].
Defined.

(** C5. The four extracted bit ranges are disjoint and cover bits 12..47:
    for every address [a] and every bit position [i] with 12 <= i <= 47,
    flipping bit [i] of [a] changes exactly one of the four fields, namely
    the one whose range [12,20], [21,29], [30,38] or [39,47] contains
    [i]. *)
Theorem flip_bit_changes_one_field (a i : Z) :
  12 <= i <= 47 ->
  exists t u l,
    get_addr_index a = Ok t
    /\ get_addr_index (flip_bit a i) = Ok u
    /\ level_of_bit i = Some l
    /\ changed_levels t u = [l].
Proof.
  intros Hi.
  assert (exists l, level_of_bit i = Some l) as [l Hl].
  { unfold level_of_bit.
    destruct (Z.leb_spec 12 i), (Z.leb_spec i 20), (Z.leb_spec 21 i),
      (Z.leb_spec i 29), (Z.leb_spec 30 i), (Z.leb_spec i 38),
      (Z.leb_spec 39 i), (Z.leb_spec i 47); simpl; eauto; lia. }
  do 2 eexists. exists l.
  split; [apply get_addr_index_unfold |].
  split; [apply get_addr_index_unfold |].
  split; [exact Hl |].
  rewrite changed_levels_flip, Hl. reflexivity.
Qed.

Lemma flip_bit_changes_one_field_witness :
  12 <= 33 <= 47
  /\ exists t u l,
       get_addr_index 0x123456789abc = Ok t
       /\ get_addr_index (flip_bit 0x123456789abc 33) = Ok u
       /\ level_of_bit 33 = Some l
       /\ changed_levels t u = [l].
Proof.
  split; [lia |].
  apply (flip_bit_changes_one_field 0x123456789abc 33). lia.
Defined.

(** Bits outside 12..47 belong to no field: flipping one of them changes
    nothing. *)
Lemma flip_bit_outside_changes_nothing (a i : Z) :
  i < 12 \/ 47 < i ->
  get_addr_index (flip_bit a i) = get_addr_index a.
Proof.
  intros Hi. apply get_addr_index_ext. intros n Hn.
  rewrite flip_bit_testbit by lia.
  destruct (Z.eqb_spec i n); try lia. apply xorb_false_r.
Qed.

Example flip_bit_33 :
  get_addr_index (flip_bit 0x123456789abc 33) = Ok (36, 217, 179, 393)
  /\ changed_levels (36, 209, 179, 393) (36, 217, 179, 393) = [L3].
Proof. split; reflexivity. Qed.

(** C6. [get_addr_index] is total and cannot fail: for every integer
    input it returns a 4-tuple and raises no error; the shifts and masks
    it performs never reach an error branch. *)
Theorem get_addr_index_total (a : Z) :
  (exists p4 p3 p2 p1, get_addr_index a = Ok (p4, p3, p2, p1))
  /\ (forall e, get_addr_index a <> Raise e).
Proof.
  split.
  - do 4 eexists. apply get_addr_index_unfold.
  - intros e. rewrite get_addr_index_unfold. discriminate.
Qed.

(** Whatever the module namespace holds, a call on an integer returns
    what the plain function computes and leaves the namespace as it was. *)
Lemma call_get_addr_index_pure (g : namespace) (a : Z) :
  call_get_addr_index g (VInt a) = (returned (get_addr_index a), g).
Proof. reflexivity. Qed.

Lemma run_calls_pure (g : namespace) (addrs : list Z) :
  run_calls g (map VInt addrs)
  = (map (fun a => returned (get_addr_index a)) addrs, g).
Proof.
  induction addrs as [| a rest IH]; [reflexivity |].
  cbn [map run_calls].
  rewrite call_get_addr_index_pure, IH. reflexivity.
Qed.

(** C7. [get_addr_index] is deterministic and referentially transparent:
    two calls on the same address return identical tuples, whatever the
    module namespace holds at each call (also when it binds [addr] or
    [p1]..[p4]); a call leaves that namespace as it found it; and the
    result of a call is the same after any sequence of earlier calls. *)
Theorem get_addr_index_deterministic
    (g g' : namespace) (before : list Z) (a : Z) :
  fst (call_get_addr_index g (VInt a)) = fst (call_get_addr_index g' (VInt a))
  /\ snd (call_get_addr_index g (VInt a)) = g
  /\ (exists r, run_calls g [VInt a; VInt a] = ([r; r], g))
  /\ snd (run_calls g (map VInt before)) = g
  /\ fst (run_calls g (map VInt (before ++ [a])))
     = fst (run_calls g (map VInt before))
       ++ [fst (call_get_addr_index g' (VInt a))].
Proof.
  split; [rewrite !call_get_addr_index_pure; reflexivity |].
  split; [rewrite call_get_addr_index_pure; reflexivity |].
  split.
  { exists (returned (get_addr_index a)).
    apply (run_calls_pure g [a; a]). }
  split; [rewrite run_calls_pure; reflexivity |].
  rewrite !run_calls_pure, call_get_addr_index_pure, map_app. reflexivity.
Qed.

Example call_with_shadowed_names :
  let g := [("p1", VInt 7); ("addr", VOther "module"); ("x", VInt 1)]%string in
  call_get_addr_index g (VInt 0x123456789abc)
  = (Done (VInt 36, VInt 209, VInt 179, VInt 393), g).
Proof. reflexivity. Qed.

(** C8. Round trip: for every non-negative address [a] with
    [get_addr_index a = (p4, p3, p2, p1)], the sum
    [(p4 << 39) + (p3 << 30) + (p2 << 21) + (p1 << 12)] equals
    [a & 0xFFFFFFFFF000]; so the output determines bits 12..47 of the
    input, and addresses that differ in those bits have different
    outputs. *)
Theorem get_addr_index_round_trip (a b : Z) :
  0 <= a -> 0 <= b ->
  (exists t, get_addr_index a = Ok t
             /\ reassemble t = Z.land a 0xFFFFFFFFF000)
  /\ (Z.land a 0xFFFFFFFFF000 <> Z.land b 0xFFFFFFFFF000 ->
      get_addr_index a <> get_addr_index b).
Proof.
  intros _ _. split.
  - eexists. split; [apply get_addr_index_unfold |].
    apply reassemble_mask.
  - intros Hdiff Heq. apply Hdiff.
    rewrite !get_addr_index_unfold in Heq.
    apply Ok_inj in Heq.
    apply (f_equal reassemble) in Heq.
    rewrite !reassemble_mask in Heq. exact Heq.
Qed.

Lemma get_addr_index_round_trip_witness :
  0 <= 0x123456789abc
  /\ 0 <= 0x123456788abc
  /\ (exists t, get_addr_index 0x123456789abc = Ok t
                /\ reassemble t = Z.land 0x123456789abc 0xFFFFFFFFF000)
  /\ (Z.land 0x123456789abc 0xFFFFFFFFF000
        <> Z.land 0x123456788abc 0xFFFFFFFFF000 ->
      get_addr_index 0x123456789abc <> get_addr_index 0x123456788abc).
Proof.
  split; [lia |]. split; [lia |].
  apply (get_addr_index_round_trip 0x123456789abc 0x123456788abc); lia.
Defined.

(** The [w]-bit encoding of a negative [a] that fits is [2^w + a]. *)
Lemma twos_complement_negative (w a : Z) :
  0 <= w -> - 2 ^ w <= a < 0 -> twos_complement w a = 2 ^ w + a.
Proof.
  intros Hw Ha. unfold twos_complement.
  symmetry. apply (Z.mod_unique a (2 ^ w) (-1)); lia.
Qed.

(** C9. Negative inputs: [get_addr_index] accepts every negative integer
    [a] and returns a tuple whose four fields lie in [0, 511].  The tuple
    is computed from the two's-complement bit pattern of [a]: for every
    width [w >= 48], its fields are the 9-bit fields at offsets 39, 30,
    21 and 12 of the unsigned [w]-bit encoding of [a] (which is
    [2^w + a] when [a] fits in [w] bits), and they are the result for
    that encoding.  In particular
    [get_addr_index (-1) = (511, 511, 511, 511)]. *)
Theorem get_addr_index_negative (a w : Z) :
  a < 0 -> 48 <= w ->
  0 <= twos_complement w a < 2 ^ w
  /\ (- 2 ^ w <= a -> twos_complement w a = 2 ^ w + a)
  /\ get_addr_index a =
       Ok (bitfield (twos_complement w a) 39 9,
           bitfield (twos_complement w a) 30 9,
           bitfield (twos_complement w a) 21 9,
           bitfield (twos_complement w a) 12 9)
  /\ (exists t, get_addr_index a = Ok t
                /\ in_range t
                /\ get_addr_index (twos_complement w a) = Ok t)
  /\ get_addr_index (-1) = Ok (511, 511, 511, 511).
Proof.
  intros Ha Hw.
  assert (get_addr_index (twos_complement w a) = get_addr_index a) as Henc.
  { apply get_addr_index_ext. intros n Hn.
    apply twos_complement_testbit. lia. }
  split; [apply Z.mod_pos_bound; lia |].
  split; [intros Hfit; apply twos_complement_negative; lia |].
  split.
  { rewrite <- Henc, get_addr_index_unfold, !field_bitfield by lia.
    reflexivity. }
  split; [| reflexivity].
  eexists. split; [apply get_addr_index_unfold |].
  split; [unfold in_range; repeat split; apply field_range |].
  rewrite Henc. apply get_addr_index_unfold.
Qed.

Lemma get_addr_index_negative_witness :
  -0x123456789abc < 0
  /\ 48 <= 64
  /\ 0 <= twos_complement 64 (-0x123456789abc) < 2 ^ 64
  /\ (- 2 ^ 64 <= -0x123456789abc ->
      twos_complement 64 (-0x123456789abc) = 2 ^ 64 + -0x123456789abc)
  /\ get_addr_index (-0x123456789abc) =
       Ok (bitfield (twos_complement 64 (-0x123456789abc)) 39 9,
           bitfield (twos_complement 64 (-0x123456789abc)) 30 9,
           bitfield (twos_complement 64 (-0x123456789abc)) 21 9,
           bitfield (twos_complement 64 (-0x123456789abc)) 12 9)
  /\ (exists t, get_addr_index (-0x123456789abc) = Ok t
                /\ in_range t
                /\ get_addr_index (twos_complement 64 (-0x123456789abc)) = Ok t)
  /\ get_addr_index (-1) = Ok (511, 511, 511, 511).
Proof.
  split; [lia |]. split; [lia |].
  apply (get_addr_index_negative (-0x123456789abc) 64); lia.
Defined.

Example get_addr_index_negative_sample :
  get_addr_index (-0x123456789abc) = Ok (475, 302, 332, 118)
  /\ twos_complement 64 (-0x123456789abc) = 0xffffedcba9876544
  /\ get_addr_index 0xffffedcba9876544 = Ok (475, 302, 332, 118).
Proof. repeat split; reflexivity. Qed.

(** ** Further properties of [get_addr_index] *)

(** The indices are the four base-512 digits of the page number
    [a // 4096]. *)
Lemma get_addr_index_digits (a : Z) :
  get_addr_index a =
  Ok ((a / 4096 / 512 / 512 / 512) mod 512, (a / 4096 / 512 / 512) mod 512,
      (a / 4096 / 512) mod 512, (a / 4096) mod 512).
Proof.
  rewrite get_addr_index_unfold, !field_bitfield by lia.
  unfold bitfield.
  change (2 ^ 39) with (4096 * 512 * 512 * 512).
  change (2 ^ 30) with (4096 * 512 * 512).
  change (2 ^ 21) with (4096 * 512).
  change (2 ^ 12) with 4096.
  change (2 ^ 9) with 512.
  rewrite <- !Z.div_div by lia.
  reflexivity.
Qed.

Lemma indices_eq (p4 p3 p2 p1 q4 q3 q2 q1 : Z) :
  p4 = q4 -> p3 = q3 -> p2 = q2 -> p1 = q1 ->
  @Ok indices (p4, p3, p2, p1) = Ok (q4, q3, q2, q1).
Proof. intros -> -> -> ->. reflexivity. Qed.

(** X1. Decoding inverts encoding: for a tuple of 9-bit indices [t] and
    any in-page offset [k] in [0, 4095], the address
    [(p4 << 39) + (p3 << 30) + (p2 << 21) + (p1 << 12) + k] is mapped back
    to [t].  Every tuple of 9-bit indices is therefore the result of some
    address. *)
Theorem get_addr_index_reassemble (t : indices) (k : Z) :
  in_range t -> 0 <= k <= 4095 ->
  get_addr_index (reassemble t + k) = Ok t.
Proof.
  destruct t as [[[p4 p3] p2] p1]. unfold in_range, reassemble.
  intros (H4 & H3 & H2 & H1) Hk.
  rewrite get_addr_index_digits, !Z.shiftl_mul_pow2 by lia.
  change (2 ^ 39) with 549755813888.
  change (2 ^ 30) with 1073741824.
  change (2 ^ 21) with 2097152.
  change (2 ^ 12) with 4096.
  replace ((p4 * 549755813888 + p3 * 1073741824 + p2 * 2097152
            + p1 * 4096 + k) / 4096)
    with (((p4 * 512 + p3) * 512 + p2) * 512 + p1)
    by (Z.div_mod_to_equations; lia).
  apply indices_eq; Z.div_mod_to_equations; lia.
Qed.

Lemma get_addr_index_reassemble_witness :
  in_range (36, 209, 179, 393)
  /\ 0 <= 0xabc <= 4095
  /\ get_addr_index (reassemble (36, 209, 179, 393) + 0xabc)
     = Ok (36, 209, 179, 393).
Proof.
  split; [unfold in_range; lia |]. split; [lia |].
  apply (get_addr_index_reassemble (36, 209, 179, 393) 0xabc);
    [unfold in_range; lia | lia].
Defined.

(** X2. Stepping to the next 4 KiB page steps the indices like a base-512
    counter: the tuple of [a + 0x1000] is the successor of the tuple of
    [a], with carries from L1 up to L4 and wrap-around after
    (511, 511, 511, 511). *)
Theorem get_addr_index_next_page (a : Z) :
  exists t,
    get_addr_index a = Ok t
    /\ get_addr_index (a + 0x1000) = Ok (next_indices t).
Proof.
  eexists. split; [apply get_addr_index_digits |].
  rewrite get_addr_index_digits.
  replace ((a + 4096) / 4096) with (a / 4096 + 1)
    by (Z.div_mod_to_equations; lia).
  generalize (a / 4096). intros x. unfold next_indices.
  destruct (Z.ltb_spec (x mod 512) 511);
    [| destruct (Z.ltb_spec ((x / 512) mod 512) 511);
       [| destruct (Z.ltb_spec ((x / 512 / 512) mod 512) 511);
          [| destruct (Z.ltb_spec ((x / 512 / 512 / 512) mod 512) 511)]]];
    apply indices_eq; Z.div_mod_to_equations; lia.
Qed.

Example next_page_carry :
  get_addr_index 0x3ffff000 = Ok (0, 0, 511, 511)
  /\ get_addr_index (0x3ffff000 + 0x1000) = Ok (0, 1, 0, 0)
  /\ get_addr_index (0xfffffffff000 + 0x1000) = Ok (0, 0, 0, 0).
Proof. repeat split; reflexivity. Qed.

(** X3. Within the 48-bit address space the indices are monotone: if
    [0 <= a <= b < 2^48], the tuple of [a] is lexicographically (L4
    first) below or equal to the tuple of [b]. *)
Theorem get_addr_index_monotone (a b : Z) :
  0 <= a -> a <= b -> b < 2 ^ 48 ->
  exists t u,
    get_addr_index a = Ok t
    /\ get_addr_index b = Ok u
    /\ indices_leb t u = true.
Proof.
  intros Ha Hab Hb.
  do 2 eexists.
  split; [apply get_addr_index_digits |].
  split; [apply get_addr_index_digits |].
  assert (0 <= a / 4096 <= b / 4096 /\ b / 4096 < 68719476736) as Hxy
    by (change (2 ^ 48) with 281474976710656 in Hb;
        Z.div_mod_to_equations; lia).
  revert Hxy. generalize (a / 4096) (b / 4096). intros x y [[Hx Hxy] Hy].
  unfold indices_leb.
  assert (x / 512 <= y / 512) as H1 by (apply Z.div_le_mono; lia).
  assert (x / 512 / 512 <= y / 512 / 512) as H2
    by (apply Z.div_le_mono; lia).
  assert (x / 512 / 512 / 512 <= y / 512 / 512 / 512) as H3
    by (apply Z.div_le_mono; lia).
  assert (0 <= x / 512 / 512 / 512 /\ y / 512 / 512 / 512 < 512) as H4
    by (Z.div_mod_to_equations; lia).
  rewrite (Z.mod_small (x / 512 / 512 / 512) 512) by lia.
  rewrite (Z.mod_small (y / 512 / 512 / 512) 512) by lia.
  destruct (Z.ltb_spec (x / 512 / 512 / 512) (y / 512 / 512 / 512));
    [reflexivity |].
  destruct (Z.eqb_spec (x / 512 / 512 / 512) (y / 512 / 512 / 512));
    [| lia].
  cbn [orb andb].
  destruct (Z.ltb_spec ((x / 512 / 512) mod 512) ((y / 512 / 512) mod 512));
    [reflexivity |].
  destruct (Z.eqb_spec ((x / 512 / 512) mod 512) ((y / 512 / 512) mod 512));
    [| exfalso; Z.div_mod_to_equations; lia].
  cbn [orb andb].
  assert (x / 512 / 512 = y / 512 / 512) as E2
    by (Z.div_mod_to_equations; lia).
  destruct (Z.ltb_spec ((x / 512) mod 512) ((y / 512) mod 512));
    [reflexivity |].
  destruct (Z.eqb_spec ((x / 512) mod 512) ((y / 512) mod 512));
    [| exfalso; Z.div_mod_to_equations; lia].
  cbn [orb andb].
  assert (x / 512 = y / 512) as E1 by (Z.div_mod_to_equations; lia).
  apply Z.leb_le. Z.div_mod_to_equations. lia.
Qed.

Lemma get_addr_index_monotone_witness :
  0 <= 0x3ffff000
  /\ 0x3ffff000 <= 0x40000000
  /\ 0x40000000 < 2 ^ 48
  /\ exists t u,
       get_addr_index 0x3ffff000 = Ok t
       /\ get_addr_index 0x40000000 = Ok u
       /\ indices_leb t u = true.
Proof.
  split; [lia |]. split; [lia |]. split; [reflexivity |].
  apply (get_addr_index_monotone 0x3ffff000 0x40000000);
    [lia | lia | reflexivity].
Defined.

Lemma index_mask_page_number (a : Z) :
  Z.land a index_mask = page_number a * 4096.
Proof. apply index_mask_div_mod. Qed.

Lemma get_addr_index_eq_iff (a b : Z) :
  get_addr_index a = get_addr_index b <-> page_number a = page_number b.
Proof.
  split.
  - intros Heq. rewrite !get_addr_index_unfold in Heq.
    apply Ok_inj in Heq. apply (f_equal reassemble) in Heq.
    rewrite !reassemble_mask, !index_mask_page_number in Heq. lia.
  - intros Heq. apply get_addr_index_ext, index_mask_agree.
    rewrite !index_mask_page_number, Heq. reflexivity.
Qed.

(** X4. Two addresses of the 48-bit space get the same indices exactly
    when they lie on the same 4 KiB page, i.e. when [a // 4096] and
    [b // 4096] are equal. *)
Theorem get_addr_index_same_page (a b : Z) :
  0 <= a < 2 ^ 48 -> 0 <= b < 2 ^ 48 ->
  (get_addr_index a = get_addr_index b <-> a / 4096 = b / 4096).
Proof.
  intros Ha Hb. rewrite get_addr_index_eq_iff. unfold page_number.
  change (2 ^ 48) with 281474976710656 in *.
  change (2 ^ 36) with 68719476736.
  rewrite !Z.mod_small by (Z.div_mod_to_equations; lia).
  reflexivity.
Qed.

Lemma get_addr_index_same_page_witness :
  0 <= 0x123456789abc < 2 ^ 48
  /\ 0 <= 0x123456789fff < 2 ^ 48
  /\ (get_addr_index 0x123456789abc = get_addr_index 0x123456789fff
      <-> 0x123456789abc / 4096 = 0x123456789fff / 4096).
Proof.
  split; [split; [lia | reflexivity] |].
  split; [split; [lia | reflexivity] |].
  apply (get_addr_index_same_page 0x123456789abc 0x123456789fff);
    (split; [lia | reflexivity]).
Defined.

(** X5. Carries only travel upwards: adding a multiple of 2 MiB
    ([0x200000]) to an address keeps its L1 index, a multiple of 1 GiB
    ([0x40000000]) keeps L1 and L2, a multiple of 512 GiB
    ([0x8000000000]) keeps L1, L2 and L3, and a multiple of 2^48 keeps all
    four. *)
Theorem get_addr_index_aligned_add (a n : Z) :
  exists p4 p3 p2 p1,
    get_addr_index a = Ok (p4, p3, p2, p1)
    /\ (exists q4 q3 q2,
          get_addr_index (a + n * 0x200000) = Ok (q4, q3, q2, p1))
    /\ (exists q4 q3,
          get_addr_index (a + n * 0x40000000) = Ok (q4, q3, p2, p1))
    /\ (exists q4,
          get_addr_index (a + n * 0x8000000000) = Ok (q4, p3, p2, p1))
    /\ get_addr_index (a + n * 0x1000000000000) = Ok (p4, p3, p2, p1).
Proof.
  do 4 eexists. split; [apply get_addr_index_digits |].
  split; [| split; [| split]].
  - do 3 eexists. rewrite get_addr_index_digits.
    apply indices_eq; try reflexivity.
    replace ((a + n * 2097152) / 4096) with (a / 4096 + n * 512)
      by (Z.div_mod_to_equations; lia).
    Z.div_mod_to_equations; lia.
  - do 2 eexists. rewrite get_addr_index_digits.
    replace ((a + n * 1073741824) / 4096) with (a / 4096 + n * 512 * 512)
      by (Z.div_mod_to_equations; lia).
    replace ((a / 4096 + n * 512 * 512) / 512) with (a / 4096 / 512 + n * 512)
      by (Z.div_mod_to_equations; lia).
    apply indices_eq; try reflexivity; Z.div_mod_to_equations; lia.
  - eexists. rewrite get_addr_index_digits.
    replace ((a + n * 549755813888) / 4096)
      with (a / 4096 + n * 512 * 512 * 512)
      by (Z.div_mod_to_equations; lia).
    replace ((a / 4096 + n * 512 * 512 * 512) / 512)
      with (a / 4096 / 512 + n * 512 * 512)
      by (Z.div_mod_to_equations; lia).
    replace ((a / 4096 / 512 + n * 512 * 512) / 512)
      with (a / 4096 / 512 / 512 + n * 512)
      by (Z.div_mod_to_equations; lia).
    apply indices_eq; try reflexivity; Z.div_mod_to_equations; lia.
  - rewrite <- get_addr_index_digits.
    apply get_addr_index_ext, index_mask_agree.
    rewrite !index_mask_page_number. f_equal. unfold page_number.
    replace ((a + n * 281474976710656) / 4096)
      with (a / 4096 + n * 2 ^ 36)
      by (change (2 ^ 36) with 68719476736; Z.div_mod_to_equations; lia).
    apply Z.mod_add. discriminate.
Qed.

(** X6. Low addresses use only the inner levels: a non-negative address
    below 512 GiB has L4 index 0, below 1 GiB also L3 index 0, below
    2 MiB also L2 index 0 (and then its L1 index is [a // 4096]), and
    below 4 KiB all four indices are 0. *)
Theorem get_addr_index_low_address (a : Z) :
  0 <= a ->
  (a < 0x8000000000 ->
     exists p3 p2 p1, get_addr_index a = Ok (0, p3, p2, p1))
  /\ (a < 0x40000000 ->
        exists p2 p1, get_addr_index a = Ok (0, 0, p2, p1))
  /\ (a < 0x200000 -> get_addr_index a = Ok (0, 0, 0, a / 4096))
  /\ (a < 0x1000 -> get_addr_index a = Ok (0, 0, 0, 0)).
Proof.
  intros Ha. split; [| split; [| split]]; intros Hlt.
  - do 3 eexists. rewrite get_addr_index_digits.
    apply indices_eq; try reflexivity. Z.div_mod_to_equations; lia.
  - do 2 eexists. rewrite get_addr_index_digits.
    apply indices_eq; try reflexivity; Z.div_mod_to_equations; lia.
  - rewrite get_addr_index_digits.
    apply indices_eq; Z.div_mod_to_equations; lia.
  - rewrite get_addr_index_digits.
    apply indices_eq; Z.div_mod_to_equations; lia.
Qed.

Lemma get_addr_index_low_address_witness :
  0 <= 0x1abcde
  /\ (0x1abcde < 0x8000000000 ->
        exists p3 p2 p1, get_addr_index 0x1abcde = Ok (0, p3, p2, p1))
  /\ (0x1abcde < 0x40000000 ->
        exists p2 p1, get_addr_index 0x1abcde = Ok (0, 0, p2, p1))
  /\ (0x1abcde < 0x200000 ->
        get_addr_index 0x1abcde = Ok (0, 0, 0, 0x1abcde / 4096))
  /\ (0x1abcde < 0x1000 -> get_addr_index 0x1abcde = Ok (0, 0, 0, 0)).
Proof.
  split; [lia |].
  apply (get_addr_index_low_address 0x1abcde). lia.
Defined.
